(** * Verification of [src/lib/crevio.ts]

    The module wraps two read operations of the Crevio SDK
    ([products.list] and [products.get]).  Each accessor builds a client
    from two values of the process environment, awaits one remote
    operation inside [try], and in [catch] logs the caught value with
    [console.error] and throws a new [Error] with a generic message.

    The embedding is shallow: JavaScript values are an inductive type, the
    effects of the module (reading [process.env], [new Crevio], the awaited
    remote call, [console.error], [throw]) live in a state-and-exception
    monad over a [World], and the SDK, which is an external package, is an
    interface ([CrevioSDK]) over which every theorem is quantified. *)

From Stdlib Require Import String List ZArith Floats.SpecFloat.
From stdpp Require Import base gmap strings.
From ExtLib Require Import Structures.Monad Structures.MonadState
  Structures.MonadExc Data.Monads.StateMonad Data.Monads.EitherMonad.
Import ListNotations.
Local Open Scope string_scope.
Set Warnings "-register-all".

Declare Scope js_scope.
Delimit Scope js_scope with js.
Notation "x <- c1 ;; c2" := (bind c1 (fun x => c2))
  (at level 100, c1 at next level, right associativity) : js_scope.
Notation "c1 ;;; c2" := (bind c1 (fun _ => c2))
  (at level 100, right associativity) : js_scope.
Local Open Scope js_scope.

(** ** JavaScript values *)

(** The values that can flow through the module at run time: what a
    remote call resolves with, and what can be thrown.  Numbers are IEEE
    doubles in their specification form.  An [Error] object is kept apart
    from plain objects, with its [name], its [message] and its optional
    [cause]. *)
Inductive JsVal : Type :=
| VUndefined
| VNull
| VBool (b : bool)
| VNumber (x : spec_float)
| VBigInt (n : Z)
| VString (s : string)
| VArray (elems : list JsVal)
| VObject (props : list (string * JsVal))
| VError (name message : string) (cause : option JsVal).

(** ECMAScript [ToBoolean]: the falsy values are [undefined], [null],
    [false], [+0], [-0], [NaN], [0n] and the empty string. *)
Definition ToBoolean (v : JsVal) : bool :=
  match v with
  | VUndefined | VNull => false
  | VBool b => b
  | VNumber (S754_zero _) | VNumber S754_nan => false
  | VNumber _ => true
  | VBigInt n => negb (n =? 0)%Z
  | VString EmptyString => false
  | VString _ => true
  | VArray _ | VObject _ | VError _ _ _ => true
  end.

(** [a || b] *)
Definition js_or (a b : JsVal) : JsVal := if ToBoolean a then a else b.

(** [new Error(message)]: no [cause] option is given. *)
Definition new_Error (message : string) : JsVal := VError "Error" message None.

(** [e.message] of a thrown value, when it is an [Error]. *)
Definition error_message (e : JsVal) : option string :=
  match e with
  | VError _ m _ => Some m
  | _ => None
  end.

(** [null] and [undefined], the absent values. *)
Definition is_absent (v : JsVal) : bool :=
  match v with
  | VUndefined | VNull => true
  | _ => false
  end.

(** ** The SDK interface *)

(** The options object literal passed to [new Crevio]; a variable of
    [process.env] is a string or [undefined]. *)
Record SDKOptions : Type := {
  apiKeyAuth : option string;
  serverURL : option string
}.

(** The request object literal passed to [products.get]. *)
Record GetProductRequest : Type := { prefixId : string }.

(** [@crevio/sdk] is not part of the repository.  [Crevio] is the class
    of client objects and [Remote] is everything the SDK can observe or
    change besides its arguments (the network, the service).  Every
    operation either yields a value ([inr]) or throws / rejects with one
    ([inl]); an awaited rejection and a synchronous throw are caught by
    the same [catch] clause, so the two are not told apart. *)
Class CrevioSDK : Type := {
  Crevio : Type;
  Remote : Type;
  Crevio_constructor : SDKOptions -> Remote -> (JsVal + Crevio) * Remote;
  products_list : Crevio -> Remote -> (JsVal + JsVal) * Remote;
  products_get : Crevio -> GetProductRequest -> Remote -> (JsVal + JsVal) * Remote
}.

(** ** The world and the effect monad *)

Section Accessors.
Context {sdk : CrevioSDK}.

(** One entry per use of the SDK: what was asked and what came back. *)
Variant Interaction : Type :=
| Constructed (opts : SDKOptions) (answer : JsVal + Crevio)
| Listed (client : Crevio) (answer : JsVal + JsVal)
| Got (client : Crevio) (request : GetProductRequest) (answer : JsVal + JsVal).

(** [process_env] is [process.env]; [console_errors] holds the argument
    lists of the [console.error] calls, oldest first; [remote] is the
    state behind the SDK.  [interactions] is a ghost record of the uses of
    the SDK, oldest first: no operation reads it.  The module has no
    variable at module level, so the world has no further component. *)
Record World : Type := {
  process_env : gmap string string;
  console_errors : list (list JsVal);
  interactions : list Interaction;
  remote : Remote
}.

Definition set_remote (r : Remote) (w : World) : World :=
  {| process_env := process_env w; console_errors := console_errors w;
     interactions := interactions w; remote := r |}.

Definition log_error (args : list JsVal) (w : World) : World :=
  {| process_env := process_env w;
     console_errors := console_errors w ++ [args];
     interactions := interactions w; remote := remote w |}.

Definition record (i : Interaction) (w : World) : World :=
  {| process_env := process_env w; console_errors := console_errors w;
     interactions := interactions w ++ [i]; remote := remote w |}.

(** A computation changes the world and either returns ([inr]) or throws
    ([inl]); what it changed before throwing stays changed. *)
Definition Js : Type -> Type := eitherT JsVal (state World).

Definition run {A : Type} (m : Js A) (w : World) : (JsVal + A) * World :=
  runState (unEitherT m) w.

(** The settled state of the promise an [async function] returns: its
    body returning [v] fulfils the promise with [v], its body throwing
    [e] rejects it with [e]. *)
Definition outcome {A : Type} (m : Js A) (w : World) : JsVal + A :=
  fst (run m w).

Definition world_after {A : Type} (m : Js A) (w : World) : World :=
  snd (run m w).

(** [process.env.KEY] *)
Definition process_env_get (key : string) : Js (option string) :=
  w <- get ;;
  ret (process_env w !! key).

(** Returning or throwing what an SDK operation answered. *)
Definition settle {A : Type} (r : JsVal + A) : Js A :=
  match r with
  | inl e => raise e
  | inr v => ret v
  end.

(** One use of the SDK: the operation runs on the remote state, the use
    is recorded, and its answer is returned or thrown. *)
Definition use_sdk {A : Type} (op : Remote -> (JsVal + A) * Remote)
    (entry : JsVal + A -> Interaction) : Js A :=
  w <- get ;;
  let (answer, r) := op (remote w) in
  put (record (entry answer) (set_remote r w)) ;;;
  settle answer.

(** [new Crevio(opts)] *)
Definition new_Crevio (opts : SDKOptions) : Js Crevio :=
  use_sdk (Crevio_constructor opts) (Constructed opts).

(** [await crevio.products.list()] *)
Definition await_products_list (crevio : Crevio) : Js JsVal :=
  use_sdk (products_list crevio) (Listed crevio).

(** [await crevio.products.get(request)] *)
Definition await_products_get (crevio : Crevio) (request : GetProductRequest)
  : Js JsVal :=
  use_sdk (products_get crevio request) (Got crevio request).

(** [console.error(...args)] *)
Definition console_error (args : list JsVal) : Js unit :=
  modify (log_error args) ;;; ret tt.

(** ** The module *)

Definition createCrevioClient : Js Crevio :=
  apiKey <- process_env_get "CREVIO_ACCOUNT_API_KEY" ;;
  url <- process_env_get "CREVIO_PROJECT_URL" ;;
  new_Crevio {| apiKeyAuth := apiKey; serverURL := url |}.

Definition fetchProducts : Js JsVal :=
  catch
    (crevio <- createCrevioClient ;;
     result <- await_products_list crevio ;;
     ret (js_or result (VArray [])))
    (fun error =>
       console_error [VString "Error fetching products:"; error] ;;;
       raise (new_Error "Failed to load products")).

Definition fetchProduct (prefixId : string) : Js JsVal :=
  catch
    (crevio <- createCrevioClient ;;
     result <- await_products_get crevio {| prefixId := prefixId |} ;;
     ret result)
    (fun error =>
       console_error [VString "Error fetching product:"; error] ;;;
       raise (new_Error ("Failed to load product: " ++ prefixId))).

(** The exported functions, as calls a client of the module can make. *)
Variant Call : Type :=
| CallFetchProducts
| CallFetchProduct (prefixId : string).

Definition invoke (call : Call) : Js JsVal :=
  match call with
  | CallFetchProducts => fetchProducts
  | CallFetchProduct prefixId => fetchProduct prefixId
  end.

(** Calls made one after the other, each awaited before the next. *)
Fixpoint session (calls : list Call) (w : World)
  : list (JsVal + JsVal) * World :=
  match calls with
  | [] => ([], w)
  | call :: rest =>
      let (o, w') := run (invoke call) w in
      let (os, w'') := session rest w' in
      (o :: os, w'')
  end.

(** ** Vocabulary of the statements *)

(** The options object [createCrevioClient] builds in world [w]. *)
Definition options_read (w : World) : SDKOptions :=
  {| apiKeyAuth := process_env w !! "CREVIO_ACCOUNT_API_KEY";
     serverURL := process_env w !! "CREVIO_PROJECT_URL" |}.

(** The uses of the SDK that running [m] in [w] adds to the record. *)
Definition interactions_of {A : Type} (m : Js A) (w : World) : list Interaction :=
  drop (length (interactions w)) (interactions (world_after m w)).

(** What the SDK answered, without what it was asked. *)
Variant Answer : Type :=
| AnsweredClient (a : JsVal + Crevio)
| AnsweredValue (a : JsVal + JsVal).

Definition answer_of (i : Interaction) : Answer :=
  match i with
  | Constructed _ a => AnsweredClient a
  | Listed _ a => AnsweredValue a
  | Got _ _ a => AnsweredValue a
  end.

(** The accessor cannot complete because the constructor or the awaited
    remote operation [op] throws [e]. *)
Definition remote_failure (op : Crevio -> Remote -> (JsVal + JsVal) * Remote)
    (w : World) (e : JsVal) : Prop :=
  (exists r, Crevio_constructor (options_read w) (remote w) = (inl e, r)) \/
  (exists c r1 r2,
      Crevio_constructor (options_read w) (remote w) = (inr c, r1) /\
      op c r1 = (inl e, r2)).

(** The constructor accepts the options and the awaited remote operation
    [op] resolves with [v]. *)
Definition remote_success (op : Crevio -> Remote -> (JsVal + JsVal) * Remote)
    (w : World) (v : JsVal) : Prop :=
  exists c r1 r2,
    Crevio_constructor (options_read w) (remote w) = (inr c, r1) /\
    op c r1 = (inr v, r2).

End Accessors.

(** ** A scripted SDK

    A double of the SDK in the manner of a unit test: the remote state is
    a script that fixes what each operation answers, a client object
    remembers the options it was built with, and the script counts the
    requests it has served. *)
Record Script : Type := {
  on_construct : SDKOptions -> option JsVal;
  on_list : SDKOptions -> JsVal + JsVal;
  on_get : SDKOptions -> string -> JsVal + JsVal;
  served : nat
}.

Definition serve (s : Script) : Script :=
  {| on_construct := on_construct s; on_list := on_list s;
     on_get := on_get s; served := S (served s) |}.

#[export] Instance ScriptedSDK : CrevioSDK := {|
  Crevio := SDKOptions;
  Remote := Script;
  Crevio_constructor opts s :=
    (match on_construct s opts with
     | Some e => inl e
     | None => inr opts
     end, s);
  products_list c s := (on_list s c, serve s);
  products_get c request s := (on_get s c (prefixId request), serve s)
|}.

Definition prod_1 : JsVal := VObject [("id", VString "prod_1")].
Definition prod_2 : JsVal := VObject [("id", VString "prod_2")].
Definition network_error : JsVal := VError "TypeError" "fetch failed" None.
Definition unauthorized : JsVal := VError "APIError" "401 Unauthorized" None.
Definition not_found : JsVal := VError "APIError" "404 Not Found" None.
Definition invalid_url : JsVal := VError "TypeError" "Invalid URL" None.

(** A shop with two products that wants an API key on every request. *)
Definition shop : Script :=
  {| on_construct := fun _ => None;
     on_list := fun c =>
       match apiKeyAuth c with
       | Some _ => inr (VArray [prod_1; prod_2])
       | None => inl unauthorized
       end;
     on_get := fun c id =>
       match apiKeyAuth c with
       | None => inl unauthorized
       | Some _ =>
           if String.eqb id "prod_1" then inr prod_1
           else if String.eqb id "prod_2" then inr prod_2
           else inl not_found
       end;
     served := 0 |}.

(** A service whose two operations resolve with [null]. *)
Definition null_service : Script :=
  {| on_construct := fun _ => None;
     on_list := fun _ => inr VNull;
     on_get := fun _ _ => inr VNull;
     served := 0 |}.

(** A network that is down. *)
Definition offline : Script :=
  {| on_construct := fun _ => None;
     on_list := fun _ => inl network_error;
     on_get := fun _ _ => inl network_error;
     served := 0 |}.

(** An SDK whose constructor rejects the options. *)
Definition picky : Script :=
  {| on_construct := fun _ => Some invalid_url;
     on_list := fun _ => inr (VArray []);
     on_get := fun _ _ => inr prod_1;
     served := 0 |}.

Definition configured : gmap string string :=
  <["CREVIO_ACCOUNT_API_KEY" := "sk_test"]>
    (<["CREVIO_PROJECT_URL" := "https://shop.example"]> ∅).

(** The options read from [configured], and from an empty environment. *)
Definition test_client : SDKOptions :=
  {| apiKeyAuth := Some "sk_test"; serverURL := Some "https://shop.example" |}.


Definition booted (env : gmap string string) (s : Script) : World :=
  {| process_env := env; console_errors := []; interactions := [];
     remote := s |}.

(** ** Bookkeeping over runs and sessions *)

Section Bookkeeping.
Context {sdk : CrevioSDK}.

(** The world with [process.env] replaced, as after assignments to its
    variables between two calls. *)
Definition set_env (env : gmap string string) (w : World) : World :=
  {| process_env := env; console_errors := console_errors w;
     interactions := interactions w; remote := remote w |}.

Definition is_rejection (o : JsVal + JsVal) : bool :=
  match o with
  | inl _ => true
  | inr _ => false
  end.

Definition is_construction (i : Interaction) : bool :=
  match i with
  | Constructed _ _ => true
  | _ => false
  end.

Definition builds_client (i : Interaction) : bool :=
  match i with
  | Constructed _ (inr _) => true
  | _ => false
  end.

Definition is_remote_operation (i : Interaction) : bool :=
  match i with
  | Listed _ _ | Got _ _ _ => true
  | Constructed _ _ => false
  end.

Definition count {A : Type} (p : A -> bool) (l : list A) : nat :=
  length (List.filter p l).

(** The remote operation a call awaits, and the label its [catch] clause
    passes to [console.error]. *)
Definition operation (call : Call)
  : Crevio -> Remote -> (JsVal + JsVal) * Remote :=
  match call with
  | CallFetchProducts => products_list
  | CallFetchProduct prefixId =>
      fun c => products_get c {| prefixId := prefixId |}
  end.

Definition catch_label (call : Call) : string :=
  match call with
  | CallFetchProducts => "Error fetching products:"
  | CallFetchProduct _ => "Error fetching product:"
  end.

(** The value the SDK throws when [call] is made in [w], if it throws:
    the constructor's, or else the awaited operation's. *)
Definition thrown (call : Call) (w : World) : option JsVal :=
  match Crevio_constructor (options_read w) (remote w) with
  | (inl e, _) => Some e
  | (inr c, r1) =>
      match fst (operation call c r1) with
      | inl e => Some e
      | inr _ => None
      end
  end.

(** The entries a sequence of calls owes the error log: for each call in
    which the SDK throws, the label of that call and the thrown value. *)
Fixpoint caught_entries (calls : list Call) (w : World) : list (list JsVal) :=
  match calls with
  | [] => []
  | call :: rest =>
      match thrown call w with
      | Some e => [[VString (catch_label call); e]]
      | None => []
      end ++ caught_entries rest (world_after (invoke call) w)
  end.

End Bookkeeping.

(** ** Equations of the monad *)

Section Properties.
Context {sdk : CrevioSDK}.

Lemma run_ret {A : Type} (a : A) (w : World) :
  run (ret a) w = (inr a, w).
Proof. reflexivity. Qed.

Lemma run_raise {A : Type} (e : JsVal) (w : World) :
  run (raise e : Js A) w = (inl e, w).
Proof. reflexivity. Qed.

Lemma run_bind {A B : Type} (m : Js A) (k : A -> Js B) (w : World) :
  run (bind m k) w =
  match run m w with
  | (inl e, w') => (inl e, w')
  | (inr a, w') => run (k a) w'
  end.
Proof.
  unfold run. cbn.
  destruct (runState (unEitherT m) w) as [[e | a] w']; reflexivity.
Qed.

Lemma run_catch {A : Type} (m : Js A) (h : JsVal -> Js A) (w : World) :
  run (catch m h) w =
  match run m w with
  | (inl e, w') => run (h e) w'
  | (inr a, w') => (inr a, w')
  end.
Proof.
  unfold run. cbn.
  destruct (runState (unEitherT m) w) as [[e | a] w']; reflexivity.
Qed.

Lemma run_process_env_get (key : string) (w : World) :
  run (process_env_get key) w = (inr (process_env w !! key), w).
Proof. reflexivity. Qed.

Lemma run_console_error (args : list JsVal) (w : World) :
  run (console_error args) w = (inr tt, log_error args w).
Proof. reflexivity. Qed.

Lemma run_use_sdk {A : Type} (op : Remote -> (JsVal + A) * Remote)
    (entry : JsVal + A -> Interaction) (w : World) :
  run (use_sdk op entry) w =
  (fst (op (remote w)),
   record (entry (fst (op (remote w)))) (set_remote (snd (op (remote w))) w)).
Proof.
  unfold run, use_sdk. cbn.
  destruct (op (remote w)) as [[e | a] r]; reflexivity.
Qed.

(** ** Runs of the module *)

Lemma run_createCrevioClient (w : World) :
  run createCrevioClient w =
  let (a, r) := Crevio_constructor (options_read w) (remote w) in
  (a, record (Constructed (options_read w) a) (set_remote r w)).
Proof.
  unfold createCrevioClient.
  rewrite run_bind, run_process_env_get, run_bind, run_process_env_get.
  unfold new_Crevio. rewrite run_use_sdk. fold (options_read w).
  destruct (Crevio_constructor (options_read w) (remote w)); reflexivity.
Qed.

(** Both accessors are the same [try]/[catch] around one remote
    operation; they differ in the operation, in what is returned from its
    result, and in the two strings of the [catch] clause. *)
Lemma run_guarded (op : Crevio -> Remote -> (JsVal + JsVal) * Remote)
    (entry : Crevio -> JsVal + JsVal -> Interaction)
    (f : JsVal -> JsVal) (label message : string) (w : World) :
  run (catch
         (crevio <- createCrevioClient ;;
          result <- use_sdk (op crevio) (entry crevio) ;;
          ret (f result))
         (fun error =>
            console_error [VString label; error] ;;;
            raise (new_Error message))) w =
  let (a, r1) := Crevio_constructor (options_read w) (remote w) in
  let w1 := record (Constructed (options_read w) a) (set_remote r1 w) in
  match a with
  | inl e => (inl (new_Error message), log_error [VString label; e] w1)
  | inr c =>
      let (b, r2) := op c r1 in
      let w2 := record (entry c b) (set_remote r2 w1) in
      match b with
      | inl e => (inl (new_Error message), log_error [VString label; e] w2)
      | inr v => (inr (f v), w2)
      end
  end.
Proof.
  rewrite run_catch, run_bind, run_createCrevioClient.
  destruct (Crevio_constructor (options_read w) (remote w)) as [[e | c] r1].
  - rewrite run_bind, run_console_error, run_raise. reflexivity.
  - rewrite run_bind, run_use_sdk. cbn [remote set_remote record].
    destruct (op c r1) as [[e | v] r2]; cbn [fst snd].
    + rewrite run_bind, run_console_error, run_raise. reflexivity.
    + rewrite run_ret. reflexivity.
Qed.

Lemma run_fetchProducts (w : World) :
  run fetchProducts w =
  let (a, r1) := Crevio_constructor (options_read w) (remote w) in
  let w1 := record (Constructed (options_read w) a) (set_remote r1 w) in
  match a with
  | inl e =>
      (inl (new_Error "Failed to load products"),
       log_error [VString "Error fetching products:"; e] w1)
  | inr c =>
      let (b, r2) := products_list c r1 in
      let w2 := record (Listed c b) (set_remote r2 w1) in
      match b with
      | inl e =>
          (inl (new_Error "Failed to load products"),
           log_error [VString "Error fetching products:"; e] w2)
      | inr v => (inr (js_or v (VArray [])), w2)
      end
  end.
Proof.
  exact (run_guarded products_list Listed (fun v => js_or v (VArray []))
           "Error fetching products:" "Failed to load products" w).
Qed.

Lemma run_fetchProduct (id : string) (w : World) :
  run (fetchProduct id) w =
  let (a, r1) := Crevio_constructor (options_read w) (remote w) in
  let w1 := record (Constructed (options_read w) a) (set_remote r1 w) in
  match a with
  | inl e =>
      (inl (new_Error ("Failed to load product: " ++ id)),
       log_error [VString "Error fetching product:"; e] w1)
  | inr c =>
      let (b, r2) := products_get c {| prefixId := id |} r1 in
      let w2 := record (Got c {| prefixId := id |} b) (set_remote r2 w1) in
      match b with
      | inl e =>
          (inl (new_Error ("Failed to load product: " ++ id)),
           log_error [VString "Error fetching product:"; e] w2)
      | inr v => (inr v, w2)
      end
  end.
Proof.
  exact (run_guarded (fun c => products_get c {| prefixId := id |})
           (fun c => Got c {| prefixId := id |}) (fun v => v)
           "Error fetching product:" ("Failed to load product: " ++ id) w).
Qed.

(** What each accessor asks of the SDK. *)
Lemma interactions_of_fetchProducts (w : World) :
  interactions_of fetchProducts w =
  let (a, r1) := Crevio_constructor (options_read w) (remote w) in
  Constructed (options_read w) a ::
  match a with
  | inl _ => []
  | inr c => [Listed c (fst (products_list c r1))]
  end.
Proof.
  unfold interactions_of, world_after. rewrite run_fetchProducts.
  destruct (Crevio_constructor (options_read w) (remote w)) as [[e | c] r1].
  - cbn. apply drop_app_length.
  - destruct (products_list c r1) as [[e | v] r2]; cbn;
      rewrite <- app_assoc; apply drop_app_length.
Qed.

Lemma interactions_of_fetchProduct (id : string) (w : World) :
  interactions_of (fetchProduct id) w =
  let (a, r1) := Crevio_constructor (options_read w) (remote w) in
  Constructed (options_read w) a ::
  match a with
  | inl _ => []
  | inr c =>
      [Got c {| prefixId := id |} (fst (products_get c {| prefixId := id |} r1))]
  end.
Proof.
  unfold interactions_of, world_after. rewrite run_fetchProduct.
  destruct (Crevio_constructor (options_read w) (remote w)) as [[e | c] r1].
  - cbn. apply drop_app_length.
  - destruct (products_get c {| prefixId := id |} r1) as [[e | v] r2]; cbn;
      rewrite <- app_assoc; apply drop_app_length.
Qed.

(** The two ways out of each accessor. *)
Lemma fetchProducts_resolves (w : World) (v : JsVal) :
  remote_success products_list w v ->
  outcome fetchProducts w = inr (js_or v (VArray [])) /\
  console_errors (world_after fetchProducts w) = console_errors w.
Proof.
  intros (c & r1 & r2 & Hc & Hl).
  unfold outcome, world_after. rewrite run_fetchProducts, Hc, Hl.
  split; reflexivity.
Qed.

Lemma fetchProducts_rejects (w : World) (e : JsVal) :
  remote_failure products_list w e ->
  outcome fetchProducts w = inl (new_Error "Failed to load products") /\
  console_errors (world_after fetchProducts w) =
    (console_errors w ++ [[VString "Error fetching products:"; e]])%list.
Proof.
  intros [(r & Hc) | (c & r1 & r2 & Hc & Hl)];
    unfold outcome, world_after; rewrite run_fetchProducts, Hc;
    [| rewrite Hl]; split; reflexivity.
Qed.

Lemma fetchProduct_resolves (id : string) (w : World) (v : JsVal) :
  remote_success (fun c => products_get c {| prefixId := id |}) w v ->
  outcome (fetchProduct id) w = inr v /\
  console_errors (world_after (fetchProduct id) w) = console_errors w.
Proof.
  intros (c & r1 & r2 & Hc & Hg).
  unfold outcome, world_after. rewrite run_fetchProduct, Hc, Hg.
  split; reflexivity.
Qed.

Lemma fetchProduct_rejects (id : string) (w : World) (e : JsVal) :
  remote_failure (fun c => products_get c {| prefixId := id |}) w e ->
  outcome (fetchProduct id) w =
    inl (new_Error ("Failed to load product: " ++ id)) /\
  console_errors (world_after (fetchProduct id) w) =
    (console_errors w ++ [[VString "Error fetching product:"; e]])%list.
Proof.
  intros [(r & Hc) | (c & r1 & r2 & Hc & Hg)];
    unfold outcome, world_after; rewrite run_fetchProduct, Hc;
    [| rewrite Hg]; split; reflexivity.
Qed.

Lemma truthy_not_absent (v : JsVal) : ToBoolean v = true -> is_absent v = false.
Proof. destruct v; cbn; congruence. Qed.

Lemma js_or_truthy (a b : JsVal) :
  ToBoolean b = true -> ToBoolean (js_or a b) = true.
Proof. unfold js_or. destruct (ToBoolean a) eqn:Ha; auto. Qed.

(** ** The list accessor *)

(** C1: when the remote list operation resolves with a falsy value
    ([null], [undefined], ...), [fetchProducts] resolves with the empty
    array; it does not reject and logs nothing. *)
Theorem fetchProducts_falsy_result_gives_empty (w : World) (v : JsVal) :
  remote_success products_list w v ->
  ToBoolean v = false ->
  outcome fetchProducts w = inr (VArray []) /\
  console_errors (world_after fetchProducts w) = console_errors w.
Proof.
  intros Hs Hv. destruct (fetchProducts_resolves w v Hs) as [Ho Hl].
  split; [| exact Hl]. rewrite Ho. unfold js_or. rewrite Hv. reflexivity.
Qed.

(** C2: whenever the constructor or the remote list operation throws,
    [fetchProducts] rejects with the [Error] whose message is
    "Failed to load products" and which has no cause; the rejection is
    the same whatever was thrown, and the thrown value is appended to the
    error log, after the label. *)
Theorem fetchProducts_failure_is_generic (w : World) (e : JsVal) :
  remote_failure products_list w e ->
  outcome fetchProducts w =
    inl (VError "Error" "Failed to load products" None) /\
  (forall w' e', remote_failure products_list w' e' ->
     outcome fetchProducts w' = outcome fetchProducts w) /\
  console_errors (world_after fetchProducts w) =
    (console_errors w ++ [[VString "Error fetching products:"; e]])%list.
Proof.
  intros Hf. destruct (fetchProducts_rejects w e Hf) as [Ho Hl].
  split; [exact Ho |]. split; [| exact Hl].
  intros w' e' Hf'. rewrite Ho. apply (fetchProducts_rejects w' e' Hf').
Qed.

(** C5: when the remote list operation resolves with [v], [fetchProducts]
    resolves with a value that is neither [null] nor [undefined]; it is
    [v] itself when [v] is truthy, and every array, empty or not, comes
    back as the same array. *)
Theorem fetchProducts_passes_sequence_through (w : World) (v : JsVal) :
  remote_success products_list w v ->
  exists out,
    outcome fetchProducts w = inr out /\
    is_absent out = false /\
    (ToBoolean v = true -> out = v) /\
    (forall l, v = VArray l -> out = VArray l).
Proof.
  intros Hs. destruct (fetchProducts_resolves w v Hs) as [Ho _].
  exists (js_or v (VArray [])). split; [exact Ho |]. split.
  - apply truthy_not_absent, js_or_truthy. reflexivity.
  - split.
    + intros Hv. unfold js_or. rewrite Hv. reflexivity.
    + intros l ->. reflexivity.
Qed.

(** ** The single-product accessor *)

(** C3: whenever the constructor or the remote get operation throws,
    [fetchProduct id] rejects with the [Error] whose message is
    "Failed to load product: " followed by [id] and which has no cause;
    the rejection is the same whatever was thrown. *)
Theorem fetchProduct_failure_names_identifier (id : string) (w : World)
    (e : JsVal) :
  remote_failure (fun c => products_get c {| prefixId := id |}) w e ->
  outcome (fetchProduct id) w =
    inl (VError "Error" ("Failed to load product: " ++ id) None) /\
  (forall w' e',
     remote_failure (fun c => products_get c {| prefixId := id |}) w' e' ->
     outcome (fetchProduct id) w' = outcome (fetchProduct id) w).
Proof.
  intros Hf. destruct (fetchProduct_rejects id w e Hf) as [Ho _].
  split; [exact Ho |].
  intros w' e' Hf'. rewrite Ho. apply (fetchProduct_rejects id w' e' Hf').
Qed.

(** C4: when the remote get operation succeeds, [fetchProduct id]
    resolves with the very value the operation resolved with, and the one
    request it makes carries [id] unchanged as its [prefixId]; this holds
    for every string, the non-empty ones included. *)
Theorem fetchProduct_returns_record_unmodified (id : string) (w : World)
    (c : Crevio) (r1 r2 : Remote) (v : JsVal) :
  Crevio_constructor (options_read w) (remote w) = (inr c, r1) ->
  products_get c {| prefixId := id |} r1 = (inr v, r2) ->
  outcome (fetchProduct id) w = inr v /\
  interactions_of (fetchProduct id) w =
    [Constructed (options_read w) (inr c);
     Got c {| prefixId := id |} (inr v)].
Proof.
  intros Hc Hg. split.
  - apply fetchProduct_resolves. exists c, r1, r2. auto.
  - rewrite interactions_of_fetchProduct, Hc, Hg. reflexivity.
Qed.

(** C8: when the remote get operation resolves with a falsy value,
    [fetchProduct] resolves with that value and logs nothing, whereas
    [fetchProducts] would replace the same value by the empty array. *)
Theorem fetchProduct_absent_result_passed_through (id : string) (w : World)
    (v : JsVal) :
  remote_success (fun c => products_get c {| prefixId := id |}) w v ->
  ToBoolean v = false ->
  outcome (fetchProduct id) w = inr v /\
  console_errors (world_after (fetchProduct id) w) = console_errors w /\
  (remote_success products_list w v ->
   outcome fetchProducts w = inr (VArray []) /\ VArray [] <> v).
Proof.
  intros Hs Hv. destruct (fetchProduct_resolves id w v Hs) as [Ho Hl].
  split; [exact Ho |]. split; [exact Hl |].
  intros Hs'. destruct (fetchProducts_resolves w v Hs') as [Ho' _].
  split.
  - rewrite Ho'. unfold js_or. rewrite Hv. reflexivity.
  - intros <-. discriminate Hv.
Qed.

(** C9: [fetchProduct] treats the empty string as any other identifier:
    the request it makes has the empty string as its [prefixId], a
    successful answer is returned as it is, and a failure gives the
    message "Failed to load product: " with nothing after the space. *)
Theorem fetchProduct_empty_identifier (w : World) :
  (forall c r1,
     Crevio_constructor (options_read w) (remote w) = (inr c, r1) ->
     interactions_of (fetchProduct "") w =
       [Constructed (options_read w) (inr c);
        Got c {| prefixId := "" |}
          (fst (products_get c {| prefixId := "" |} r1))]) /\
  (forall v,
     remote_success (fun c => products_get c {| prefixId := "" |}) w v ->
     outcome (fetchProduct "") w = inr v) /\
  (forall e,
     remote_failure (fun c => products_get c {| prefixId := "" |}) w e ->
     outcome (fetchProduct "") w =
       inl (VError "Error" "Failed to load product: " None)).
Proof.
  split; [| split].
  - intros c r1 Hc. rewrite interactions_of_fetchProduct, Hc. reflexivity.
  - intros v Hs. apply (fetchProduct_resolves "" w v Hs).
  - intros e Hf. apply (fetchProduct_rejects "" w e Hf).
Qed.

(** ** Client construction and independence of calls *)

Lemma invoke_agrees (call : Call) (w1 w2 : World) :
  options_read w1 = options_read w2 ->
  remote w1 = remote w2 ->
  outcome (invoke call) w1 = outcome (invoke call) w2 /\
  remote (world_after (invoke call) w1) = remote (world_after (invoke call) w2) /\
  interactions_of (invoke call) w1 = interactions_of (invoke call) w2.
Proof.
  intros Ho Hr. destruct call as [| id]; cbn [invoke].
  - rewrite !interactions_of_fetchProducts. unfold outcome, world_after.
    rewrite !run_fetchProducts, Ho, Hr.
    destruct (Crevio_constructor (options_read w2) (remote w2)) as [[e | c] r1];
      [auto |].
    destruct (products_list c r1) as [[e | v] r2]; auto.
  - rewrite !interactions_of_fetchProduct. unfold outcome, world_after.
    rewrite !run_fetchProduct, Ho, Hr.
    destruct (Crevio_constructor (options_read w2) (remote w2)) as [[e | c] r1];
      [auto |].
    destruct (products_get c {| prefixId := id |} r1) as [[e | v] r2]; auto.
Qed.

Lemma invoke_keeps_env (call : Call) (w : World) :
  process_env (world_after (invoke call) w) = process_env w.
Proof.
  unfold world_after. destruct call as [| id]; cbn [invoke].
  - rewrite run_fetchProducts.
    destruct (Crevio_constructor (options_read w) (remote w)) as [[e | c] r1];
      [reflexivity |].
    destruct (products_list c r1) as [[e | v] r2]; reflexivity.
  - rewrite run_fetchProduct.
    destruct (Crevio_constructor (options_read w) (remote w)) as [[e | c] r1];
      [reflexivity |].
    destruct (products_get c {| prefixId := id |} r1) as [[e | v] r2];
      reflexivity.
Qed.

Lemma session_keeps_env (calls : list Call) (w : World) :
  process_env (snd (session calls w)) = process_env w.
Proof.
  revert w. induction calls as [| call rest IH]; intros w; [reflexivity |].
  cbn [session].
  pose proof (invoke_keeps_env call w) as He. unfold world_after in He.
  destruct (run (invoke call) w) as [o w'].
  specialize (IH w'). destruct (session rest w') as [os w''].
  cbn [snd] in *. congruence.
Qed.


(** C7: every invocation of either accessor calls the constructor exactly
    once, first, with the options read from the environment of the world
    it runs in, and makes its remote call on the client that this
    constructor call returned.  What the module writes is never read back:
    an invocation's outcome, its uses of the SDK and the remote state it
    leaves depend only on the two configuration values and on the remote
    state; it leaves the environment as it was, so after any earlier calls
    it behaves as in the initial world with the remote state those calls
    left. *)
Theorem accessors_build_own_client_and_share_nothing :
  (forall w,
     let (a, r1) := Crevio_constructor (options_read w) (remote w) in
     interactions_of fetchProducts w =
       Constructed (options_read w) a ::
       match a with
       | inl _ => []
       | inr c => [Listed c (fst (products_list c r1))]
       end) /\
  (forall id w,
     let (a, r1) := Crevio_constructor (options_read w) (remote w) in
     interactions_of (fetchProduct id) w =
       Constructed (options_read w) a ::
       match a with
       | inl _ => []
       | inr c =>
           [Got c {| prefixId := id |}
              (fst (products_get c {| prefixId := id |} r1))]
       end) /\
  (forall call w1 w2,
     options_read w1 = options_read w2 ->
     remote w1 = remote w2 ->
     outcome (invoke call) w1 = outcome (invoke call) w2 /\
     remote (world_after (invoke call) w1) =
       remote (world_after (invoke call) w2) /\
     interactions_of (invoke call) w1 = interactions_of (invoke call) w2) /\
  (forall earlier call w,
     let w' := snd (session earlier w) in
     process_env w' = process_env w /\
     outcome (invoke call) w' = outcome (invoke call) (set_remote (remote w') w)).
Proof.
  split; [| split; [| split]].
  - intros w. rewrite interactions_of_fetchProducts.
    destruct (Crevio_constructor (options_read w) (remote w)); reflexivity.
  - intros id w. rewrite interactions_of_fetchProduct.
    destruct (Crevio_constructor (options_read w) (remote w)); reflexivity.
  - exact invoke_agrees.
  - intros earlier call w. cbv zeta.
    pose proof (session_keeps_env earlier w) as He.
    split; [exact He |].
    apply invoke_agrees; [| reflexivity].
    unfold options_read. cbn [process_env set_remote]. rewrite He. reflexivity.
Qed.

(** C10: two runs of the same call in worlds with the same two
    configuration values, in which the SDK gives the same answers
    (clients, values or thrown values), settle in the same way: the same
    fulfilment value or the same rejection, after the same uses of the
    SDK. *)
Theorem accessors_are_deterministic (call : Call) (w1 w2 : World) :
  options_read w1 = options_read w2 ->
  map answer_of (interactions_of (invoke call) w1) =
    map answer_of (interactions_of (invoke call) w2) ->
  outcome (invoke call) w1 = outcome (invoke call) w2 /\
  interactions_of (invoke call) w1 = interactions_of (invoke call) w2.
Proof.
  intros Ho. destruct call as [| id]; cbn [invoke].
  - rewrite !interactions_of_fetchProducts. unfold outcome.
    rewrite !run_fetchProducts, Ho.
    destruct (Crevio_constructor (options_read w2) (remote w1)) as [[e1 | c1] r1];
      destruct (Crevio_constructor (options_read w2) (remote w2)) as [[e2 | c2] s1];
      cbn; intros Ha; try discriminate Ha.
    + injection Ha as ->. auto.
    + injection Ha as -> Hb. revert Hb.
      destruct (products_list c2 r1) as [[e1 | v1] r2];
        destruct (products_list c2 s1) as [[e2 | v2] s2];
        cbn; intros Hb; try discriminate Hb; injection Hb as ->; auto.
  - rewrite !interactions_of_fetchProduct. unfold outcome.
    rewrite !run_fetchProduct, Ho.
    destruct (Crevio_constructor (options_read w2) (remote w1)) as [[e1 | c1] r1];
      destruct (Crevio_constructor (options_read w2) (remote w2)) as [[e2 | c2] s1];
      cbn; intros Ha; try discriminate Ha.
    + injection Ha as ->. auto.
    + injection Ha as -> Hb. revert Hb.
      destruct (products_get c2 {| prefixId := id |} r1) as [[e1 | v1] r2];
        destruct (products_get c2 {| prefixId := id |} s1) as [[e2 | v2] s2];
        cbn; intros Hb; try discriminate Hb; injection Hb as ->; auto.
Qed.

End Properties.

(** ** Scenarios on the scripted SDK *)

Lemma configured_succeeds (op : SDKOptions -> Script -> (JsVal + JsVal) * Script)
    (s : Script) (v : JsVal) :
  on_construct s test_client = None ->
  fst (op test_client s) = inr v ->
  remote_success op (booted configured s) v.
Proof.
  intros Hc Ho. exists test_client, s, (snd (op test_client s)). split.
  - cbn. change (options_read (booted configured s)) with test_client.
    rewrite Hc. reflexivity.
  - rewrite <- Ho. apply surjective_pairing.
Defined.

Lemma configured_fails (op : SDKOptions -> Script -> (JsVal + JsVal) * Script)
    (s : Script) (e : JsVal) :
  on_construct s test_client = None ->
  fst (op test_client s) = inl e ->
  remote_failure op (booted configured s) e.
Proof.
  intros Hc Ho. right. exists test_client, s, (snd (op test_client s)). split.
  - cbn. change (options_read (booted configured s)) with test_client.
    rewrite Hc. reflexivity.
  - rewrite <- Ho. apply surjective_pairing.
Defined.

Lemma fetchProducts_null_scenario :
  remote_success products_list (booted configured null_service) VNull /\
  outcome fetchProducts (booted configured null_service) = inr (VArray []).
Proof.
  assert (Hs : remote_success products_list (booted configured null_service) VNull)
    by (apply configured_succeeds; reflexivity).
  split; [exact Hs |].
  exact (proj1 (fetchProducts_falsy_result_gives_empty _ VNull Hs eq_refl)).
Defined.

Lemma fetchProducts_constructor_throws_scenario :
  remote_failure products_list (booted configured picky) invalid_url /\
  outcome fetchProducts (booted configured picky) =
    inl (VError "Error" "Failed to load products" None) /\
  console_errors (world_after fetchProducts (booted configured picky)) =
    [[VString "Error fetching products:"; invalid_url]].
Proof.
  assert (Hf : remote_failure products_list (booted configured picky) invalid_url)
    by (left; exists picky; reflexivity).
  split; [exact Hf |].
  destruct (fetchProducts_failure_is_generic _ _ Hf) as (Ho & _ & Hl).
  split; [exact Ho | exact Hl].
Defined.

Lemma fetchProduct_network_error_scenario :
  remote_failure (fun c => products_get (CrevioSDK := ScriptedSDK) c {| prefixId := "prod_123" |})
    (booted configured offline) network_error /\
  outcome (fetchProduct "prod_123") (booted configured offline) =
    inl (VError "Error" "Failed to load product: prod_123" None).
Proof.
  assert (Hf : remote_failure (fun c => products_get (CrevioSDK := ScriptedSDK) c {| prefixId := "prod_123" |})
                 (booted configured offline) network_error)
    by (apply (configured_fails (fun c => products_get (CrevioSDK := ScriptedSDK) c {| prefixId := "prod_123" |}));
        reflexivity).
  split; [exact Hf |].
  exact (proj1 (fetchProduct_failure_names_identifier "prod_123" _ _ Hf)).
Defined.

Lemma fetchProduct_found_scenario :
  outcome (fetchProduct "prod_1") (booted configured shop) = inr prod_1 /\
  interactions_of (fetchProduct "prod_1") (booted configured shop) =
    [Constructed test_client (inr test_client);
     Got test_client {| prefixId := "prod_1" |} (inr prod_1)].
Proof.
  exact (fetchProduct_returns_record_unmodified "prod_1" (booted configured shop)
           test_client shop (serve shop) prod_1 eq_refl eq_refl).
Defined.

Lemma fetchProducts_two_products_scenario :
  remote_success products_list (booted configured shop) (VArray [prod_1; prod_2]) /\
  outcome fetchProducts (booted configured shop) = inr (VArray [prod_1; prod_2]).
Proof.
  assert (Hs : remote_success products_list (booted configured shop)
                 (VArray [prod_1; prod_2]))
    by (apply configured_succeeds; reflexivity).
  split; [exact Hs |].
  destruct (fetchProducts_passes_sequence_through _ _ Hs) as (out & Ho & _ & _ & Hsame).
  rewrite Ho, (Hsame _ eq_refl). reflexivity.
Defined.

Lemma fetchProduct_null_scenario :
  remote_success (fun c => products_get (CrevioSDK := ScriptedSDK) c {| prefixId := "prod_9" |})
    (booted configured null_service) VNull /\
  outcome (fetchProduct "prod_9") (booted configured null_service) = inr VNull /\
  outcome fetchProducts (booted configured null_service) = inr (VArray []).
Proof.
  assert (Hg : remote_success (fun c => products_get (CrevioSDK := ScriptedSDK) c {| prefixId := "prod_9" |})
                 (booted configured null_service) VNull)
    by (apply (configured_succeeds (fun c => products_get (CrevioSDK := ScriptedSDK) c {| prefixId := "prod_9" |}));
        reflexivity).
  assert (Hl : remote_success products_list (booted configured null_service) VNull)
    by (apply configured_succeeds; reflexivity).
  split; [exact Hg |].
  destruct (fetchProduct_absent_result_passed_through "prod_9" _ VNull Hg eq_refl)
    as (Ho & _ & Hcontrast).
  split; [exact Ho | exact (proj1 (Hcontrast Hl))].
Defined.

Lemma fetchProduct_empty_identifier_scenario :
  interactions_of (fetchProduct "") (booted configured shop) =
    [Constructed test_client (inr test_client);
     Got test_client {| prefixId := "" |} (inl not_found)] /\
  outcome (fetchProduct "") (booted configured shop) =
    inl (VError "Error" "Failed to load product: " None).
Proof.
  destruct (fetchProduct_empty_identifier (booted configured shop))
    as (Hreq & _ & Hfail).
  split.
  - exact (Hreq test_client shop eq_refl).
  - apply (Hfail not_found).
    apply (configured_fails (fun c => products_get (CrevioSDK := ScriptedSDK) c {| prefixId := "" |}));
      reflexivity.
Defined.


Lemma second_call_scenario :
  outcome (invoke CallFetchProducts)
    (snd (session [CallFetchProduct "nope"; CallFetchProducts]
            (booted configured shop))) =
    inr (VArray [prod_1; prod_2]) /\
  outcome fetchProducts (log_error [VString "noise"] (booted configured shop)) =
    outcome fetchProducts (booted configured shop) /\
  interactions_of fetchProducts
    (world_after (fetchProduct "nope") (booted configured shop)) =
    [Constructed test_client (inr test_client);
     Listed test_client (inr (VArray [prod_1; prod_2]))].
Proof.
  destruct accessors_build_own_client_and_share_nothing
    as (Hlist & _ & Hagree & Hafter).
  split; [| split].
  - destruct (Hafter [CallFetchProduct "nope"; CallFetchProducts]
                CallFetchProducts (booted configured shop)) as [_ ->].
    reflexivity.
  - exact (proj1 (Hagree CallFetchProducts
                    (log_error [VString "noise"] (booted configured shop))
                    (booted configured shop) eq_refl eq_refl)).
  - exact (Hlist (world_after (fetchProduct "nope") (booted configured shop))).
Defined.

Lemma repeated_call_scenario :
  outcome (fetchProduct "prod_2") (booted configured shop) =
  outcome (fetchProduct "prod_2")
    (world_after fetchProducts (booted configured shop)).
Proof.
  exact (proj1 (accessors_are_deterministic (CallFetchProduct "prod_2")
                  (booted configured shop)
                  (world_after fetchProducts (booted configured shop))
                  eq_refl eq_refl)).
Defined.

(** ** What a settled promise tells the caller *)

Section Soundness.
Context {sdk : CrevioSDK}.

Lemma append_inj_r (p a b : string) : p ++ a = p ++ b -> a = b.
Proof.
  induction p as [| ch p IH]; cbn; intros H; [exact H |].
  injection H as H. exact (IH H).
Qed.

Lemma fetchProducts_rejection_value (w : World) (e : JsVal) :
  outcome fetchProducts w = inl e ->
  e = new_Error "Failed to load products".
Proof.
  unfold outcome. rewrite run_fetchProducts.
  destruct (Crevio_constructor (options_read w) (remote w)) as [[e0 | c] r1];
    [cbn; congruence |].
  destruct (products_list c r1) as [[e0 | v] r2]; cbn; congruence.
Qed.

Lemma fetchProduct_rejection_value (id : string) (w : World) (e : JsVal) :
  outcome (fetchProduct id) w = inl e ->
  e = new_Error ("Failed to load product: " ++ id).
Proof.
  unfold outcome. rewrite run_fetchProduct.
  destruct (Crevio_constructor (options_read w) (remote w)) as [[e0 | c] r1];
    [cbn; congruence |].
  destruct (products_get c {| prefixId := id |} r1) as [[e0 | v] r2]; cbn;
    congruence.
Qed.

(** X1: a rejection of [fetchProducts] is always the generic error, it stands
    for a value the constructor or the list operation really threw, and
    that value is the entry the run appended to the error log. *)
Theorem fetchProducts_rejection_is_genuine (w : World) (e : JsVal) :
  outcome fetchProducts w = inl e ->
  e = VError "Error" "Failed to load products" None /\
  exists e0,
    remote_failure products_list w e0 /\
    console_errors (world_after fetchProducts w) =
      (console_errors w ++ [[VString "Error fetching products:"; e0]])%list.
Proof.
  unfold outcome, world_after, remote_failure. rewrite run_fetchProducts.
  destruct (Crevio_constructor (options_read w) (remote w)) as [[e0 | c] r1].
  - cbn. intros [= <-]. split; [reflexivity |]. exists e0. split; [| reflexivity].
    left. exists r1. reflexivity.
  - destruct (products_list c r1) as [[e0 | v] r2] eqn:Hl; cbn; [| discriminate].
    intros [= <-]. split; [reflexivity |]. exists e0. split; [| reflexivity].
    right. exists c, r1, r2. auto.
Qed.

(** X2: a fulfilment of [fetchProducts] never hides a failure: the
    constructor and the list operation both succeeded, the value is the
    answer of the list operation or the empty array, it is truthy, and
    nothing was logged. *)
Theorem fetchProducts_fulfilment_is_genuine (w : World) (out : JsVal) :
  outcome fetchProducts w = inr out ->
  exists v,
    remote_success products_list w v /\
    (out = v \/ out = VArray []) /\
    ToBoolean out = true /\
    console_errors (world_after fetchProducts w) = console_errors w.
Proof.
  unfold outcome, world_after, remote_success. rewrite run_fetchProducts.
  destruct (Crevio_constructor (options_read w) (remote w)) as [[e0 | c] r1];
    [cbn; discriminate |].
  destruct (products_list c r1) as [[e0 | v] r2] eqn:Hl; cbn; [discriminate |].
  intros [= <-]. exists v. split; [exists c, r1, r2; auto |].
  split; [| split; [apply js_or_truthy | ]; reflexivity].
  unfold js_or. destruct (ToBoolean v); auto.
Qed.

(** X3: a rejection of [fetchProduct id] is always the error naming [id], it
    stands for a value the constructor or the get operation really threw,
    and that value is logged after the label of this accessor. *)
Theorem fetchProduct_rejection_is_genuine (id : string) (w : World)
    (e : JsVal) :
  outcome (fetchProduct id) w = inl e ->
  e = VError "Error" ("Failed to load product: " ++ id) None /\
  exists e0,
    remote_failure (fun c => products_get c {| prefixId := id |}) w e0 /\
    console_errors (world_after (fetchProduct id) w) =
      (console_errors w ++ [[VString "Error fetching product:"; e0]])%list.
Proof.
  unfold outcome, world_after, remote_failure. rewrite run_fetchProduct.
  destruct (Crevio_constructor (options_read w) (remote w)) as [[e0 | c] r1].
  - cbn. intros [= <-]. split; [reflexivity |]. exists e0. split; [| reflexivity].
    left. exists r1. reflexivity.
  - destruct (products_get c {| prefixId := id |} r1) as [[e0 | v] r2] eqn:Hg;
      cbn; [| discriminate].
    intros [= <-]. split; [reflexivity |]. exists e0. split; [| reflexivity].
    right. exists c, r1, r2. auto.
Qed.

(** X4: a fulfilment of [fetchProduct id] is the answer of a get operation
    that succeeded for the request carrying [id], and nothing was
    logged. *)
Theorem fetchProduct_fulfilment_is_genuine (id : string) (w : World)
    (out : JsVal) :
  outcome (fetchProduct id) w = inr out ->
  remote_success (fun c => products_get c {| prefixId := id |}) w out /\
  console_errors (world_after (fetchProduct id) w) = console_errors w.
Proof.
  unfold outcome, world_after, remote_success. rewrite run_fetchProduct.
  destruct (Crevio_constructor (options_read w) (remote w)) as [[e0 | c] r1];
    [cbn; discriminate |].
  destruct (products_get c {| prefixId := id |} r1) as [[e0 | v] r2] eqn:Hg;
    cbn; [discriminate |].
  intros [= <-]. split; [exists c, r1, r2; auto | reflexivity].
Qed.

(** X5: the rejection of [fetchProduct] identifies the identifier: two calls
    that reject with the same error were made for the same identifier. *)
Theorem fetchProduct_rejection_determines_identifier (id1 id2 : string)
    (w1 w2 : World) (e : JsVal) :
  outcome (fetchProduct id1) w1 = inl e ->
  outcome (fetchProduct id2) w2 = inl e ->
  id1 = id2.
Proof.
  intros H1 H2.
  pose proof (fetchProduct_rejection_value id1 w1 e H1) as E1.
  pose proof (fetchProduct_rejection_value id2 w2 e H2) as E2.
  rewrite E1 in E2. injection E2 as E2. exact (append_inj_r _ _ _ E2).
Qed.

(** X6: the two accessors never reject with the same error: a caller can
    always tell from the rejection which of the two failed. *)
Theorem accessors_rejections_differ (id : string) (w1 w2 : World)
    (e1 e2 : JsVal) :
  outcome fetchProducts w1 = inl e1 ->
  outcome (fetchProduct id) w2 = inl e2 ->
  e1 <> e2.
Proof.
  intros H1 H2.
  rewrite (fetchProducts_rejection_value w1 e1 H1).
  rewrite (fetchProduct_rejection_value id w2 e2 H2).
  intros H. injection H. intros. discriminate.
Qed.

End Soundness.

(** ** Sessions of calls *)

Section Sessions.
Context {sdk : CrevioSDK}.

Lemma count_app {A : Type} (p : A -> bool) (l1 l2 : list A) :
  count p (l1 ++ l2) = count p l1 + count p l2.
Proof. unfold count. rewrite List.filter_app. apply List.length_app. Qed.

Lemma invoke_interactions (call : Call) (w : World) :
  interactions (world_after (invoke call) w) =
  (interactions w ++ interactions_of (invoke call) w)%list.
Proof.
  destruct call as [| id]; cbn [invoke].
  - rewrite interactions_of_fetchProducts. unfold world_after.
    rewrite run_fetchProducts.
    destruct (Crevio_constructor (options_read w) (remote w)) as [[e | c] r1];
      [reflexivity |].
    destruct (products_list c r1) as [[e | v] r2]; cbn;
      rewrite <- app_assoc; reflexivity.
  - rewrite interactions_of_fetchProduct. unfold world_after.
    rewrite run_fetchProduct.
    destruct (Crevio_constructor (options_read w) (remote w)) as [[e | c] r1];
      [reflexivity |].
    destruct (products_get c {| prefixId := id |} r1) as [[e | v] r2]; cbn;
      rewrite <- app_assoc; reflexivity.
Qed.

Lemma invoke_interaction_counts (call : Call) (w : World) :
  count is_construction (interactions_of (invoke call) w) = 1 /\
  count is_remote_operation (interactions_of (invoke call) w) =
    count builds_client (interactions_of (invoke call) w).
Proof.
  destruct call as [| id]; cbn [invoke].
  - rewrite interactions_of_fetchProducts.
    destruct (Crevio_constructor (options_read w) (remote w)) as [[e | c] r1];
      split; reflexivity.
  - rewrite interactions_of_fetchProduct.
    destruct (Crevio_constructor (options_read w) (remote w)) as [[e | c] r1];
      split; reflexivity.
Qed.

Lemma thrown_iff_failure (call : Call) (w : World) (e : JsVal) :
  thrown call w = Some e <-> remote_failure (operation call) w e.
Proof.
  unfold thrown, remote_failure.
  destruct (Crevio_constructor (options_read w) (remote w)) as [[e0 | c] r1].
  - split.
    + intros [= ->]. left. exists r1. reflexivity.
    + intros [(r & [= -> _]) | (c & r & r2 & [=] & _)]. reflexivity.
  - destruct (operation call c r1) as [[e0 | v] r2] eqn:Ho; cbn [fst]; split.
    + intros [= ->]. right. exists c, r1, r2. auto.
    + intros [(r & [=]) | (c' & r & r' & [= <- <-] & Ho')].
      rewrite Ho in Ho'. injection Ho' as -> _. reflexivity.
    + intros [=].
    + intros [(r & [=]) | (c' & r & r' & [= <- <-] & Ho')].
      rewrite Ho in Ho'. discriminate Ho'.
Qed.

Lemma invoke_console (call : Call) (w : World) :
  console_errors (world_after (invoke call) w) =
    (console_errors w ++
     match thrown call w with
     | Some e => [[VString (catch_label call); e]]
     | None => []
     end)%list /\
  is_rejection (outcome (invoke call) w) =
    match thrown call w with
    | Some _ => true
    | None => false
    end.
Proof.
  unfold outcome, world_after, thrown. destruct call as [| id];
    cbn [invoke operation catch_label].
  - rewrite run_fetchProducts.
    destruct (Crevio_constructor (options_read w) (remote w)) as [[e | c] r1];
      [split; reflexivity |].
    destruct (products_list c r1) as [[e | v] r2]; cbn;
      rewrite ?app_nil_r; split; reflexivity.
  - rewrite run_fetchProduct.
    destruct (Crevio_constructor (options_read w) (remote w)) as [[e | c] r1];
      [split; reflexivity |].
    destruct (products_get c {| prefixId := id |} r1) as [[e | v] r2]; cbn;
      rewrite ?app_nil_r; split; reflexivity.
Qed.

(** X7: over any sequence of calls the error log only grows at its end,
    and what is added is, in order, one entry for each call in which the
    constructor or the awaited operation threw: the label of that call's
    accessor followed by the very value that was thrown.  These are as
    many entries as calls that rejected, so a call that resolved added
    none. *)
Theorem session_logs_each_rejection_once (calls : list Call) (w : World) :
  console_errors (snd (session calls w)) =
    (console_errors w ++ caught_entries calls w)%list /\
  length (caught_entries calls w) = count is_rejection (fst (session calls w)).
Proof.
  revert w. induction calls as [| call rest IH]; intros w.
  - cbn. rewrite app_nil_r. split; reflexivity.
  - cbn [session caught_entries].
    destruct (invoke_console call w) as [Hc Hn].
    unfold outcome in Hn. unfold world_after in Hc |- *.
    destruct (run (invoke call) w) as [o w'].
    destruct (IH w') as [Hc2 Hn2].
    destruct (session rest w') as [os w'']. cbn [fst snd] in *. split.
    + rewrite Hc2, Hc, app_assoc. reflexivity.
    + rewrite List.length_app, Hn2. unfold count. cbn [List.filter].
      rewrite Hn. destruct (thrown call w); reflexivity.
Qed.

(** X8: over any sequence of calls the constructor is called exactly once per
    call, so no client is kept from one call to the next, and every
    client built is used for exactly one remote operation: there are as
    many remote operations as successful constructions, hence no retry. *)
Theorem session_builds_one_client_per_call (calls : list Call) (w : World) :
  exists added,
    interactions (snd (session calls w)) = (interactions w ++ added)%list /\
    count is_construction added = length calls /\
    count is_remote_operation added = count builds_client added.
Proof.
  revert w. induction calls as [| call rest IH]; intros w.
  - exists []. cbn. rewrite app_nil_r. repeat split.
  - cbn [session].
    pose proof (invoke_interactions call w) as Hi.
    destruct (invoke_interaction_counts call w) as [Hn Hr].
    unfold world_after in Hi.
    set (a1 := interactions_of (invoke call) w) in *.
    destruct (run (invoke call) w) as [o w'].
    destruct (IH w') as (a2 & Hi2 & Hn2 & Hr2).
    destruct (session rest w') as [os w'']. cbn [fst snd] in *.
    exists (a1 ++ a2)%list. split; [| split].
    + rewrite Hi2, Hi, app_assoc. reflexivity.
    + rewrite count_app, Hn, Hn2. reflexivity.
    + rewrite !count_app, Hr, Hr2. reflexivity.
Qed.

(** X9: the configuration is read anew by every call and nothing else of the
    environment is: after any earlier calls, when a variable is then
    assigned, the next call constructs its client with the new value if
    the variable is one of the two it reads, and with the values of the
    initial environment otherwise. *)
Theorem configuration_is_read_at_every_call (earlier : list Call)
    (call : Call) (w : World) (key value : string) :
  let w1 := snd (session earlier w) in
  let w2 := set_env (<[key := value]> (process_env w1)) w1 in
  let opts :=
    if decide (key = "CREVIO_ACCOUNT_API_KEY") then
      {| apiKeyAuth := Some value;
         serverURL := process_env w !! "CREVIO_PROJECT_URL" |}
    else if decide (key = "CREVIO_PROJECT_URL") then
      {| apiKeyAuth := process_env w !! "CREVIO_ACCOUNT_API_KEY";
         serverURL := Some value |}
    else
      {| apiKeyAuth := process_env w !! "CREVIO_ACCOUNT_API_KEY";
         serverURL := process_env w !! "CREVIO_PROJECT_URL" |} in
  exists rest,
    interactions_of (invoke call) w2 =
      Constructed opts (fst (Crevio_constructor opts (remote w1))) :: rest.
Proof.
  cbv zeta.
  pose proof (session_keeps_env earlier w) as He.
  set (w1 := snd (session earlier w)) in *.
  set (w2 := set_env (<[key := value]> (process_env w1)) w1).
  assert (Ho : options_read w2 =
    if decide (key = "CREVIO_ACCOUNT_API_KEY") then
      {| apiKeyAuth := Some value;
         serverURL := process_env w !! "CREVIO_PROJECT_URL" |}
    else if decide (key = "CREVIO_PROJECT_URL") then
      {| apiKeyAuth := process_env w !! "CREVIO_ACCOUNT_API_KEY";
         serverURL := Some value |}
    else
      {| apiKeyAuth := process_env w !! "CREVIO_ACCOUNT_API_KEY";
         serverURL := process_env w !! "CREVIO_PROJECT_URL" |}).
  { unfold options_read, w2. cbn [process_env set_env]. rewrite He.
    rewrite !lookup_insert.
    destruct (decide (key = "CREVIO_ACCOUNT_API_KEY")) as [-> | ?];
      [reflexivity |].
    destruct (decide (key = "CREVIO_PROJECT_URL")); reflexivity. }
  rewrite <- Ho. change (remote w1) with (remote w2).
  destruct call as [| id]; cbn [invoke].
  - rewrite interactions_of_fetchProducts.
    destruct (Crevio_constructor (options_read w2) (remote w2)); eauto.
  - rewrite interactions_of_fetchProduct.
    destruct (Crevio_constructor (options_read w2) (remote w2)); eauto.
Qed.

End Sessions.

(** ** Further scenarios on the scripted SDK *)

Lemma offline_list_rejection_scenario :
  outcome fetchProducts (booted configured offline) =
    inl (new_Error "Failed to load products") /\
  exists e0,
    remote_failure products_list (booted configured offline) e0 /\
    console_errors (world_after fetchProducts (booted configured offline)) =
      [[VString "Error fetching products:"; e0]].
Proof.
  assert (H : outcome fetchProducts (booted configured offline) =
              inl (new_Error "Failed to load products")) by reflexivity.
  split; [exact H |].
  exact (proj2 (fetchProducts_rejection_is_genuine _ _ H)).
Defined.

Lemma shop_list_fulfilment_scenario :
  outcome fetchProducts (booted configured shop) =
    inr (VArray [prod_1; prod_2]) /\
  exists v,
    remote_success products_list (booted configured shop) v /\
    (VArray [prod_1; prod_2] = v \/ VArray [prod_1; prod_2] = VArray []) /\
    ToBoolean (VArray [prod_1; prod_2]) = true /\
    console_errors (world_after fetchProducts (booted configured shop)) = [].
Proof.
  assert (H : outcome fetchProducts (booted configured shop) =
              inr (VArray [prod_1; prod_2])) by reflexivity.
  split; [exact H |].
  exact (fetchProducts_fulfilment_is_genuine _ _ H).
Defined.

Lemma unknown_product_rejection_scenario :
  outcome (fetchProduct "prod_7") (booted configured shop) =
    inl (new_Error "Failed to load product: prod_7") /\
  exists e0,
    remote_failure (fun c => products_get (CrevioSDK := ScriptedSDK) c
                               {| prefixId := "prod_7" |})
      (booted configured shop) e0 /\
    console_errors (world_after (fetchProduct "prod_7") (booted configured shop)) =
      [[VString "Error fetching product:"; e0]].
Proof.
  assert (H : outcome (fetchProduct "prod_7") (booted configured shop) =
              inl (new_Error "Failed to load product: prod_7")) by reflexivity.
  split; [exact H |].
  exact (proj2 (fetchProduct_rejection_is_genuine "prod_7" _ _ H)).
Defined.

Lemma known_product_fulfilment_scenario :
  outcome (fetchProduct "prod_2") (booted configured shop) = inr prod_2 /\
  remote_success (fun c => products_get (CrevioSDK := ScriptedSDK) c
                             {| prefixId := "prod_2" |})
    (booted configured shop) prod_2.
Proof.
  assert (H : outcome (fetchProduct "prod_2") (booted configured shop) =
              inr prod_2) by reflexivity.
  split; [exact H |].
  exact (proj1 (fetchProduct_fulfilment_is_genuine "prod_2" _ _ H)).
Defined.

Lemma same_rejection_same_identifier_scenario :
  outcome (fetchProduct "prod_7") (booted configured shop) =
    outcome (fetchProduct "prod_7") (booted ∅ offline) /\
  "prod_7" = "prod_7".
Proof.
  split; [reflexivity |].
  exact (fetchProduct_rejection_determines_identifier "prod_7" "prod_7"
           (booted configured shop) (booted ∅ offline)
           (new_Error "Failed to load product: prod_7") eq_refl eq_refl).
Defined.

Lemma rejections_differ_scenario :
  new_Error "Failed to load products" <> new_Error "Failed to load product: s".
Proof.
  exact (accessors_rejections_differ "s" (booted configured offline)
           (booted configured offline) _ _ eq_refl eq_refl).
Defined.

Lemma mixed_session_log_scenario :
  console_errors
    (snd (session [CallFetchProduct "prod_7"; CallFetchProducts;
                   CallFetchProduct "prod_1"]
            (booted configured shop))) =
    [[VString "Error fetching product:"; not_found]] /\
  console_errors
    (snd (session [CallFetchProducts; CallFetchProduct "prod_1"]
            (booted configured offline))) =
    [[VString "Error fetching products:"; network_error];
     [VString "Error fetching product:"; network_error]].
Proof.
  split.
  - exact (proj1 (session_logs_each_rejection_once
                    [CallFetchProduct "prod_7"; CallFetchProducts;
                     CallFetchProduct "prod_1"] (booted configured shop))).
  - exact (proj1 (session_logs_each_rejection_once
                    [CallFetchProducts; CallFetchProduct "prod_1"]
                    (booted configured offline))).
Defined.

